(** * HydroVerde relay controller (stream.py)

    A shallow embedding of the control logic of [stream.py]: the schedule
    test and the relay update of [check_and_control_relay], the button
    handlers of the Streamlit script, [read_sensor_data], and the one-time
    hardware and session initialisation.

    What is modelled and how:
    - [datetime.time] values are records of hour, minute, second and
      microsecond, compared field by field as CPython does for naive times;
    - [st.session_state] is a record; the two dictionaries it holds have a
      fixed key set and become records as well;
    - the only GPIO effect of the script is [GPIO.output(RELAY_PIN, level)];
      the sequence of levels written to the pin is kept in the state, newest
      first, so "no driver call" is "the sequence did not grow";
    - the wall clock ([datetime.now().time()]), the click of a button and the
      behaviour of the DHT device during one read are inputs;
    - [print], [st.toast], [time.sleep] and the page rendering do not touch
      the session state or the pin and are left out. *)

From Stdlib Require Import ZArith Bool List String DecimalString Lia.
Import ListNotations.
Local Open Scope Z_scope.

(** ** Times of day *)

Record dt_time : Type := mk_time {
  hour : Z;
  minute : Z;
  second : Z;
  microsecond : Z
}.

(** The ranges [datetime.time] enforces in its constructor. *)
Definition valid_time (t : dt_time) : Prop :=
  0 <= hour t < 24 /\ 0 <= minute t < 60 /\ 0 <= second t < 60 /\
  0 <= microsecond t < 1000000.

(** Microseconds elapsed since midnight. *)
Definition micros (t : dt_time) : Z :=
  ((hour t * 60 + minute t) * 60 + second t) * 1000000 + microsecond t.

(** [time._cmp]: the tuples (hour, minute, second, microsecond) compared
    from the left. *)
Definition time_cmp (a b : dt_time) : comparison :=
  match hour a ?= hour b with
  | Eq =>
      match minute a ?= minute b with
      | Eq =>
          match second a ?= second b with
          | Eq => microsecond a ?= microsecond b
          | c => c
          end
      | c => c
      end
  | c => c
  end.

Definition time_lt (a b : dt_time) : bool :=
  match time_cmp a b with Lt => true | _ => false end.
Definition time_le (a b : dt_time) : bool :=
  match time_cmp a b with Gt => false | _ => true end.
Definition time_gt (a b : dt_time) : bool :=
  match time_cmp a b with Gt => true | _ => false end.
Definition time_ge (a b : dt_time) : bool :=
  match time_cmp a b with Lt => false | _ => true end.

(** [dt_time(h, m)] *)
Definition hm (h m : Z) : dt_time := mk_time h m 0 0.

(** ** Session state and the relay pin *)

(** The two strings ever stored under ["status"]. *)
Inductive relay_status : Type := ON | OFF.

Definition status_eqb (a b : relay_status) : bool :=
  match a, b with
  | ON, ON | OFF, OFF => true
  | _, _ => false
  end.

(** [GPIO.LOW] energises the relay, [GPIO.HIGH] releases it. *)
Inductive level : Type := LOW | HIGH.

Record relay_state_t : Type := mk_relay_state {
  start_time : dt_time;
  end_time : dt_time;
  status : relay_status
}.

Record sensor_data_t : Type := mk_sensor_data {
  temperature : string;
  humidity : string
}.

Record world : Type := mk_world {
  relay_state : relay_state_t;
  sensor_data : sensor_data_t;
  manual_override : bool;
  (** levels written to RELAY_PIN so far, newest first *)
  gpio_writes : list level
}.

(** The level the pin was last driven to. *)
Definition pin_level (w : world) : option level := hd_error (gpio_writes w).

(** ** A state monad over [world] *)

Definition M (A : Type) : Type := world -> A * world.

Definition ret {A} (a : A) : M A := fun w => (a, w).
Definition bind {A B} (m : M A) (k : A -> M B) : M B :=
  fun w => let (a, w') := m w in k a w'.

Declare Scope script_scope.
Delimit Scope script_scope with script.
Notation "x <- m ;; k" := (bind m (fun x => k))
  (at level 61, m at next level, right associativity) : script_scope.
Notation "m ;; k" := (bind m (fun _ => k))
  (at level 61, right associativity) : script_scope.
Local Open Scope script_scope.

Definition gets {A} (f : world -> A) : M A := fun w => (f w, w).
Definition exec {A} (m : M A) (w : world) : world := snd (m w).

(** [GPIO.output(RELAY_PIN, l)] *)
Definition gpio_output (l : level) : M unit :=
  fun w => (tt, mk_world (relay_state w) (sensor_data w) (manual_override w)
                         (l :: gpio_writes w)).

(** [st.session_state.relay_state["status"] = s] *)
Definition set_status (s : relay_status) : M unit :=
  fun w => (tt, mk_world
                  (mk_relay_state (start_time (relay_state w))
                                  (end_time (relay_state w)) s)
                  (sensor_data w) (manual_override w) (gpio_writes w)).

(** [st.session_state.relay_state["start_time"] = t] *)
Definition set_start_time (t : dt_time) : M unit :=
  fun w => (tt, mk_world
                  (mk_relay_state t (end_time (relay_state w))
                                  (status (relay_state w)))
                  (sensor_data w) (manual_override w) (gpio_writes w)).

(** [st.session_state.relay_state["end_time"] = t] *)
Definition set_end_time (t : dt_time) : M unit :=
  fun w => (tt, mk_world
                  (mk_relay_state (start_time (relay_state w)) t
                                  (status (relay_state w)))
                  (sensor_data w) (manual_override w) (gpio_writes w)).

(** [st.session_state.manual_override = b] *)
Definition set_manual_override (b : bool) : M unit :=
  fun w => (tt, mk_world (relay_state w) (sensor_data w) b (gpio_writes w)).

(** ** Initialisation *)

(** [setup_gpio] drives the pin HIGH once; the session state starts with the
    window 05:30 to 09:30, status "OFF", both readings "N/A" and no
    override. The model follows one session from this state on. *)
Definition initial_world : world :=
  mk_world (mk_relay_state (hm 5 30) (hm 9 30) OFF)
           (mk_sensor_data "N/A"%string "N/A"%string)
           false
           [HIGH].

(** Two more states, fresh from initialisation but for the window: an
    overnight one, 22:00 to 06:00, and a same-day one, 09:00 to 17:00. *)
Definition overnight_world : world :=
  mk_world (mk_relay_state (hm 22 0) (hm 6 0) OFF)
           (mk_sensor_data "N/A" "N/A") false [HIGH].

Definition office_world : world :=
  mk_world (mk_relay_state (hm 9 0) (hm 17 0) OFF)
           (mk_sensor_data "N/A" "N/A") false [HIGH].

(** ** The schedule test and the tick *)

(** The value [is_on_schedule] holds after lines 97 to 105. *)
Definition is_on_schedule (now start end_ : dt_time) : bool :=
  if time_gt start end_ then
    (if time_ge now start || time_lt now end_ then true else false)
  else
    (if time_le start now && time_lt now end_ then true else false).

Definition check_and_control_relay (now : dt_time) : M unit :=
  ov <- gets manual_override ;;
  if ov then ret tt
  else
    state <- gets relay_state ;;
    let on := is_on_schedule now (start_time state) (end_time state) in
    if on && status_eqb (status state) OFF then
      gpio_output LOW ;; set_status ON
    else if negb on && status_eqb (status state) ON then
      gpio_output HIGH ;; set_status OFF
    else ret tt.

(** ** The buttons *)

(** [st.button(..., disabled=d)] is true in the execution that follows a
    click on it. [disabled] decides how the button is drawn, and so whether
    the page of this execution lets the user click it; it does not enter
    the value returned. A click made on the previous page while the button
    was enabled is therefore still delivered when, by the time the call is
    reached, the tick of this execution has made [d] true. *)
Definition st_button (clicked disabled : bool) : bool :=
  clicked.

(** Each handler returns [true] when its body ran, that is when the script
    reaches its [st.rerun()]. *)

(** Lines 146 to 152: the resume button exists only while the override is
    active. *)
Definition resume_schedule (clicked : bool) : M bool :=
  ov <- gets manual_override ;;
  if ov then
    if st_button clicked false then
      set_manual_override false ;; ret true
    else ret false
  else ret false.

(** Lines 157 to 164. *)
Definition turn_on_now (clicked : bool) : M bool :=
  state <- gets relay_state ;;
  if st_button clicked (status_eqb (status state) ON) then
    gpio_output LOW ;;
    set_status ON ;;
    set_manual_override true ;;
    ret true
  else ret false.

(** Lines 166 to 173. *)
Definition turn_off_now (clicked : bool) : M bool :=
  state <- gets relay_state ;;
  if st_button clicked (status_eqb (status state) OFF) then
    gpio_output HIGH ;;
    set_status OFF ;;
    set_manual_override true ;;
    ret true
  else ret false.

(** Lines 197 to 211; [now] is the clock read by the nested call of
    [check_and_control_relay]. *)
Definition update_schedule (clicked : bool)
    (start_time_input end_time_input now : dt_time) : M bool :=
  if st_button clicked false then
    set_start_time start_time_input ;;
    set_end_time end_time_input ;;
    ov <- gets manual_override ;;
    (if ov then set_manual_override false else ret tt) ;;
    check_and_control_relay now ;;
    ret true
  else ret false.

(** ** The events of the control state machine *)

Inductive event : Type :=
| Tick (now : dt_time)
| ManualCommand (x : relay_status)
| ResumeSchedule
| UpdateSchedule (new_start new_end now : dt_time).

Definition manual_command (x : relay_status) : M bool :=
  match x with
  | ON => turn_on_now true
  | OFF => turn_off_now true
  end.

(** The [disabled=] argument of the button for [x] (lines 158 and 167): the
    button is drawn greyed out when the stored status is already [x]. *)
Definition rendered_disabled (x : relay_status) (w : world) : bool :=
  status_eqb (status (relay_state w)) x.

(** The command for [x] is offered on a page drawn from [w] when its button
    is enabled there. *)
Definition command_available (x : relay_status) (w : world) : bool :=
  negb (rendered_disabled x w).

Definition step (ev : event) (w : world) : world :=
  match ev with
  | Tick now => exec (check_and_control_relay now) w
  | ManualCommand x => exec (manual_command x) w
  | ResumeSchedule => exec (resume_schedule true) w
  | UpdateSchedule s e now => exec (update_schedule true s e now) w
  end.

Definition run (evs : list event) (w : world) : world :=
  fold_left (fun acc ev => step ev acc) evs w.

(** The world after ticks at the given clock readings. *)
Definition ticks (nows : list dt_time) (w : world) : world :=
  run (map Tick nows) w.

(** The level that puts the relay in a given status: line 109 writes LOW to
    turn it on, line 114 writes HIGH to turn it off. *)
Definition level_of (s : relay_status) : level :=
  match s with
  | ON => LOW
  | OFF => HIGH
  end.

(** [scheduled_status now w]: the status the window of [w] asks for at
    [now]. *)
Definition scheduled_status (now : dt_time) (w : world) : relay_status :=
  if is_on_schedule now (start_time (relay_state w)) (end_time (relay_state w))
  then ON else OFF.

(** The stored status agrees with the level the pin was last driven to. *)
Definition relay_consistent (w : world) : Prop :=
  (status (relay_state w) = ON <-> pin_level w = Some LOW) /\
  (status (relay_state w) = OFF <-> pin_level w = Some HIGH).

(** ** The sensor *)

(** An exception raised by the DHT driver: whether it is caught by
    [except RuntimeError] (the class and its subclasses) or only by
    [except Exception], and its [args] tuple. Exceptions outside
    [Exception], such as [KeyboardInterrupt], do not come from the device
    and are not modelled. *)
Inductive exn_class : Type := RuntimeError | OtherException.

Record exn : Type := mk_exn {
  cls : exn_class;
  args : list string
}.

(** What [read_sensor_data] gives back to the script: it returns, or an
    exception leaves it. The only one the body can raise itself is the
    [IndexError] of [error.args[0]] on an empty tuple. *)
Inductive outcome : Type := Returned | Propagated_IndexError.

(** [st.session_state.sensor_data["temperature"] = s] *)
Definition set_temperature (s : string) : M unit :=
  fun w => (tt, mk_world (relay_state w)
                         (mk_sensor_data s (humidity (sensor_data w)))
                         (manual_override w) (gpio_writes w)).

(** [st.session_state.sensor_data["humidity"] = s] *)
Definition set_humidity (s : string) : M unit :=
  fun w => (tt, mk_world (relay_state w)
                         (mk_sensor_data (temperature (sensor_data w)) s)
                         (manual_override w) (gpio_writes w)).

(** [print(f"DHT Sensor Read Error: {error.args[0]}")] in the first handler
    indexes the argument tuple; [print(f"... {e}")] in the second does not. *)
Definition handle_read_error (e : exn) : M outcome :=
  match cls e with
  | RuntimeError =>
      match args e with
      | [] => ret Propagated_IndexError
      | _ :: _ => ret Returned
      end
  | OtherException => ret Returned
  end.

(** An exception gets past [error.args[0]] when, being caught by the first
    handler, it carries at least one argument. *)
Definition printable (e : exn) : Prop :=
  cls e = RuntimeError -> args e <> [].

Section Sensor.

(** The numbers the driver reports and their rendering by an f-string. *)
Variable num : Type.
Variable fmt : num -> string.

(** One access to a property of the device: a value, [None], or an
    exception. *)
Inductive access : Type :=
| Value (v : option num)
| Raises (e : exn).

(** The device during one call of [read_sensor_data]. *)
Record dht : Type := mk_dht {
  temperature_read : access;
  humidity_read : access
}.

(** [dht_device] is [None] when [setup_dht_sensor] failed. *)
Definition read_sensor_data (dht_device : option dht) : M outcome :=
  match dht_device with
  | None => ret Returned
  | Some d =>
      match temperature_read d with
      | Raises e => handle_read_error e
      | Value temperature =>
          match humidity_read d with
          | Raises e => handle_read_error e
          | Value humidity =>
              match temperature, humidity with
              | Some t, Some h =>
                  set_temperature (fmt t ++ "°C") ;;
                  set_humidity (fmt h ++ "%") ;;
                  ret Returned
              | _, _ => ret Returned
              end
          end
      end
  end.

(** A read that fails: the device is absent, or one of the two property
    accesses that are made raises. *)
Definition read_fails (dht_device : option dht) : Prop :=
  match dht_device with
  | None => True
  | Some d =>
      match temperature_read d with
      | Raises _ => True
      | Value _ =>
          match humidity_read d with
          | Raises _ => True
          | Value _ => False
          end
      end
  end.

(** A read that comes back with at least one value missing. *)
Definition reading_incomplete (d : dht) : Prop :=
  temperature_read d = Value None \/ humidity_read d = Value None.

End Sensor.

Arguments Value {num} v.
Arguments Raises {num} e.
Arguments mk_dht {num} _ _.
Arguments temperature_read {num} _.
Arguments humidity_read {num} _.
Arguments read_fails {num} _.
Arguments reading_incomplete {num} _.

(** The rendering of a Python [int] by an f-string, for integer readings. *)
Definition fmt_int (z : Z) : string :=
  DecimalString.NilZero.string_of_int (Z.to_int z).

(** ** One execution of the script *)

(** The button the user pressed on the page the previous execution
    rendered, if any. *)
Inductive click : Type :=
| NoClick
| ClickResume
| ClickTurnOn
| ClickTurnOff
| ClickUpdate.

Definition is_click (c c' : click) : bool :=
  match c, c' with
  | ClickResume, ClickResume
  | ClickTurnOn, ClickTurnOn
  | ClickTurnOff, ClickTurnOff
  | ClickUpdate, ClickUpdate => true
  | _, _ => false
  end.

Section Script.

Variable num : Type.
Variable fmt : num -> string.

(** Everything one execution takes from outside the session state. *)
Record run_input : Type := mk_run_input {
  device : option (dht num);
  (** the clock read by the call on line 121 *)
  now_tick : dt_time;
  clicked : click;
  start_time_input : dt_time;
  end_time_input : dt_time;
  (** the clock read by the call on line 208 *)
  now_update : dt_time
}.

(** Lines 120 to 216. An exception out of [read_sensor_data] ends the
    execution; a handler that runs ends it with [st.rerun()]; otherwise it
    sleeps and reruns. *)
Definition script_run (i : run_input) : M outcome :=
  r <- read_sensor_data num fmt (device i) ;;
  match r with
  | Propagated_IndexError => ret Propagated_IndexError
  | Returned =>
      check_and_control_relay (now_tick i) ;;
      b <- resume_schedule (is_click (clicked i) ClickResume) ;;
      if b then ret Returned
      else
        b <- turn_on_now (is_click (clicked i) ClickTurnOn) ;;
        if b then ret Returned
        else
          b <- turn_off_now (is_click (clicked i) ClickTurnOff) ;;
          if b then ret Returned
          else
            update_schedule (is_click (clicked i) ClickUpdate)
              (start_time_input i) (end_time_input i) (now_update i) ;;
            ret Returned
  end.

Definition script_runs (ins : list run_input) (w : world) : world :=
  fold_left (fun acc i => exec (script_run i) acc) ins w.

End Script.

Arguments mk_run_input {num} _ _ _ _ _ _.

(** An action keeps the agreement between the status and the pin. *)
Definition preserves {A} (m : M A) : Prop :=
  forall w, relay_consistent w -> relay_consistent (exec m w).

(** ** Notions for the further properties *)

Definition level_eqb (a b : level) : bool :=
  match a, b with
  | LOW, LOW | HIGH, HIGH => true
  | _, _ => false
  end.

(** No two consecutive writes to the pin carry the same level. *)
Fixpoint alternating (l : list level) : bool :=
  match l with
  | a :: t =>
      match t with
      | b :: _ => negb (level_eqb a b) && alternating t
      | [] => true
      end
  | [] => true
  end.

(** The status agrees with the pin and the writes so far alternate. *)
Definition toggling (w : world) : Prop :=
  relay_consistent w /\ alternating (gpio_writes w) = true.

(** An event changes the relay, or is no manual command: a manual command
    counts when the stored status is not yet the commanded one. *)
Definition is_change (ev : event) (w : world) : Prop :=
  match ev with
  | ManualCommand x => status (relay_state w) <> x
  | _ => True
  end.

(** Every manual command of a sequence of events is a change in the state
    it is issued in. *)
Fixpoint commands_change (evs : list event) (w : world) : Prop :=
  match evs with
  | [] => True
  | ev :: evs' => is_change ev w /\ commands_change evs' (step ev w)
  end.

(** How many writes to the pin separate two states. *)
Definition writes_between (w w' : world) : Z :=
  Z.of_nat (List.length (gpio_writes w')) -
  Z.of_nat (List.length (gpio_writes w)).

Arguments writes_between : simpl never.

(** Lines 34 to 43: [setup_dht_sensor] hands back the device the
    constructor built, or [None] when the constructor raised; the exception
    is shown with [st.error] and goes no further. *)
Definition setup_dht_sensor {H : Type} (construct : H + exn) : option H :=
  match construct with
  | inl dht_device => Some dht_device
  | inr _ => None
  end.

(** The two values of a read in which both accesses returned one. *)
Definition complete_reading {num : Type} (dev : option (dht num))
    : option (num * num) :=
  match dev with
  | None => None
  | Some d =>
      match temperature_read d, humidity_read d with
      | Value (Some t), Value (Some h) => Some (t, h)
      | _, _ => None
      end
  end.

(** The values of the last execution of a sequence whose read was
    complete. *)
Fixpoint last_complete_reading {num : Type} (ins : list (run_input num))
    : option (num * num) :=
  match ins with
  | [] => None
  | i :: rest =>
      match last_complete_reading rest with
      | Some p => Some p
      | None => complete_reading (device num i)
      end
  end.

(** The exception a read runs into, if any: that of the temperature access,
    or else that of the humidity access, which is made only when the first
    one returned. *)
Definition met_exception {num : Type} (dev : option (dht num)) : option exn :=
  match dev with
  | None => None
  | Some d =>
      match temperature_read d with
      | Raises e => Some e
      | Value _ =>
          match humidity_read d with
          | Raises e => Some e
          | Value _ => None
          end
      end
  end.

(** * Properties *)

(** ** The order on times of day *)

Lemma time_cmp_micros (a b : dt_time) :
  valid_time a -> valid_time b -> time_cmp a b = (micros a ?= micros b).
Proof.
  destruct a as [ha ma sa ua], b as [hb mb sb ub].
  unfold valid_time, time_cmp, micros; simpl.
  intros (Hh & Hm & Hs & Hu) (Hh' & Hm' & Hs' & Hu').
  symmetry.
  destruct (Z.compare_spec ha hb) as [Eh | Lh | Gh];
    [ subst hb;
      destruct (Z.compare_spec ma mb) as [Em | Lm | Gm];
        [ subst mb;
          destruct (Z.compare_spec sa sb) as [Es | Ls | Gs];
            [ subst sb;
              destruct (Z.compare_spec ua ub) as [Eu | Lu | Gu] | | ] | | ] | | ];
    first [ apply Z.compare_eq_iff; lia
          | apply Z.compare_lt_iff; lia
          | apply Z.compare_gt_iff; lia ].
Qed.

Section TimeOrder.

Variables a b : dt_time.
Hypothesis Ha : valid_time a.
Hypothesis Hb : valid_time b.

Lemma time_lt_micros : time_lt a b = true <-> micros a < micros b.
Proof.
  unfold time_lt. rewrite (time_cmp_micros a b Ha Hb).
  destruct (Z.compare_spec (micros a) (micros b)); split; intros; lia || congruence.
Qed.

Lemma time_le_micros : time_le a b = true <-> micros a <= micros b.
Proof.
  unfold time_le. rewrite (time_cmp_micros a b Ha Hb).
  destruct (Z.compare_spec (micros a) (micros b)); split; intros; lia || congruence.
Qed.

Lemma time_gt_micros : time_gt a b = true <-> micros a > micros b.
Proof.
  unfold time_gt. rewrite (time_cmp_micros a b Ha Hb).
  destruct (Z.compare_spec (micros a) (micros b)); split; intros; lia || congruence.
Qed.

Lemma time_ge_micros : time_ge a b = true <-> micros a >= micros b.
Proof.
  unfold time_ge. rewrite (time_cmp_micros a b Ha Hb).
  destruct (Z.compare_spec (micros a) (micros b)); split; intros; lia || congruence.
Qed.

End TimeOrder.

(** Two valid times with the same microsecond count are the same time. *)
Lemma micros_inj (a b : dt_time) :
  valid_time a -> valid_time b -> micros a = micros b -> a = b.
Proof.
  destruct a as [ha ma sa ua], b as [hb mb sb ub].
  unfold valid_time, micros; simpl.
  intros (Hh & Hm & Hs & Hu) (Hh' & Hm' & Hs' & Hu') E.
  assert (ha = hb) by lia. subst hb.
  assert (ma = mb) by lia. subst mb.
  assert (sa = sb) by lia. subst sb.
  assert (ua = ub) by lia. subst ub.
  reflexivity.
Qed.

(** ** The schedule test *)

Lemma if_true_false (c : bool) : (if c then true else false) = c.
Proof. destruct c; reflexivity. Qed.

Lemma is_on_schedule_overnight (now start end_ : dt_time) :
  valid_time now -> valid_time start -> valid_time end_ ->
  micros start > micros end_ ->
  (is_on_schedule now start end_ = true <->
   micros now >= micros start \/ micros now < micros end_).
Proof.
  intros Hn Hs He Hgt. unfold is_on_schedule.
  assert (G : time_gt start end_ = true)
    by (apply time_gt_micros; assumption).
  rewrite G, if_true_false, orb_true_iff.
  rewrite (time_ge_micros now start Hn Hs), (time_lt_micros now end_ Hn He).
  reflexivity.
Qed.

Lemma is_on_schedule_same_day (now start end_ : dt_time) :
  valid_time now -> valid_time start -> valid_time end_ ->
  micros start <= micros end_ ->
  (is_on_schedule now start end_ = true <->
   micros start <= micros now < micros end_).
Proof.
  intros Hn Hs He Hle. unfold is_on_schedule.
  assert (G : time_gt start end_ = false).
  { destruct (time_gt start end_) eqn:E; [| reflexivity].
    apply time_gt_micros in E; try assumption. lia. }
  rewrite G, if_true_false, andb_true_iff.
  rewrite (time_le_micros start now Hs Hn), (time_lt_micros now end_ Hn He).
  reflexivity.
Qed.

(** C4. With an overnight window ([start] later in the day than [end_]) the
    schedule test of a tick is true exactly when [now] is at or after
    [start], or before [end_]; a tick that is not overridden leaves the
    status ON exactly then. *)
Theorem overnight_window_on_iff (w : world) (now : dt_time) :
  valid_time now ->
  valid_time (start_time (relay_state w)) ->
  valid_time (end_time (relay_state w)) ->
  micros (start_time (relay_state w)) > micros (end_time (relay_state w)) ->
  manual_override w = false ->
  let start := start_time (relay_state w) in
  let end_ := end_time (relay_state w) in
  let on := micros now >= micros start \/ micros now < micros end_ in
  (is_on_schedule now start end_ = true <-> on) /\
  (status (relay_state (exec (check_and_control_relay now) w)) = ON <-> on).
Proof.
  intros Hn Hs He Hgt Hov start end_ on.
  pose proof (is_on_schedule_overnight now start end_ Hn Hs He Hgt) as Hiff.
  split; [exact Hiff |].
  unfold on. rewrite <- Hiff. clear Hiff on.
  destruct w as [[s e st] sd ov g]; simpl in *; subst ov.
  unfold exec, check_and_control_relay, bind, gets; simpl.
  subst start end_.
  destruct (is_on_schedule now s e), st; simpl;
    split; intros; congruence.
Qed.

(** C5. With a same-day window ([start] not later than [end_]) the schedule
    test of a tick is true exactly when [start <= now < end_], and a tick
    that is not overridden leaves the status ON exactly then; when the two
    bounds coincide the test is false whatever [now] is. *)
Theorem same_day_window_on_iff (w : world) (now : dt_time) :
  valid_time now ->
  valid_time (start_time (relay_state w)) ->
  valid_time (end_time (relay_state w)) ->
  micros (start_time (relay_state w)) <= micros (end_time (relay_state w)) ->
  manual_override w = false ->
  let start := start_time (relay_state w) in
  let end_ := end_time (relay_state w) in
  let on := micros start <= micros now < micros end_ in
  (is_on_schedule now start end_ = true <-> on) /\
  (status (relay_state (exec (check_and_control_relay now) w)) = ON <-> on) /\
  (start = end_ -> is_on_schedule now start end_ = false).
Proof.
  intros Hn Hs He Hle Hov start end_ on.
  pose proof (is_on_schedule_same_day now start end_ Hn Hs He Hle) as Hiff.
  split; [exact Hiff |]. split.
  - unfold on. rewrite <- Hiff. clear Hiff on.
    destruct w as [[s e st] sd ov g]; simpl in *; subst ov.
    unfold exec, check_and_control_relay, bind, gets; simpl.
    subst start end_.
    destruct (is_on_schedule now s e), st; simpl;
      split; intros; congruence.
  - intros Heq.
    apply not_true_is_false. intros E.
    apply Hiff in E. unfold on in E. rewrite Heq in E. lia.
Qed.

(** ** The tick *)

Lemma tick_overridden (w : world) (now : dt_time) :
  manual_override w = true -> check_and_control_relay now w = (tt, w).
Proof.
  intros H. unfold check_and_control_relay, bind, gets.
  rewrite H. reflexivity.
Qed.

Lemma ticks_overridden (nows : list dt_time) (w : world) :
  manual_override w = true -> ticks nows w = w.
Proof.
  unfold ticks, run. induction nows as [| now nows IH]; intros H; simpl.
  - reflexivity.
  - unfold exec. rewrite (tick_overridden w now H). simpl. apply IH, H.
Qed.

(** What a tick that is not overridden does: the status becomes the
    scheduled one, and the pin is written exactly when that is a change. *)
Lemma tick_scheduled (w : world) (now : dt_time) :
  manual_override w = false ->
  exec (check_and_control_relay now) w =
  mk_world
    (mk_relay_state (start_time (relay_state w)) (end_time (relay_state w))
                    (scheduled_status now w))
    (sensor_data w) false
    (if status_eqb (status (relay_state w)) (scheduled_status now w)
     then gpio_writes w
     else level_of (scheduled_status now w) :: gpio_writes w).
Proof.
  destruct w as [[s e st] sd ov g]; simpl; intros ->.
  unfold exec, check_and_control_relay, scheduled_status, bind, gets; simpl.
  destruct (is_on_schedule now s e), st; reflexivity.
Qed.

Lemma status_eqb_eq (a b : relay_status) : status_eqb a b = true <-> a = b.
Proof. destruct a, b; simpl; split; congruence. Qed.

(** C1. While the override is set a tick does nothing at all: the whole
    state, with the status, the override flag, the window and the sequence
    of pin writes, is returned as it was. So after a manual command whose
    handler ran, any number of ticks at any times leave the commanded
    status, the override and the pin writes as the command left them. *)
Theorem tick_noop_under_override (w : world) (x : relay_status)
    (now : dt_time) (nows : list dt_time) :
  (manual_override w = true ->
   check_and_control_relay now w = (tt, w) /\ ticks nows w = w) /\
  (fst (manual_command x w) = true ->
   let w1 := exec (manual_command x) w in
   ticks nows w1 = w1 /\
   status (relay_state (ticks nows w1)) = x /\
   manual_override (ticks nows w1) = true).
Proof.
  split.
  - intros H. split; [apply tick_overridden | apply ticks_overridden]; exact H.
  - intros Hran w1.
    assert (Hw1 : manual_override w1 = true /\ status (relay_state w1) = x).
    { subst w1. destruct w as [[s e st] sd ov g].
      unfold exec, manual_command, turn_on_now, turn_off_now, st_button,
        bind, gets in *.
      destruct x, st; simpl in *; try discriminate; split; reflexivity. }
    destruct Hw1 as [Hov Hst].
    rewrite (ticks_overridden nows w1 Hov). auto.
Qed.

(** C6. Two ticks at the same clock reading, override off: the second one
    returns the state the first one produced, so it writes nothing to the
    pin and changes no status. The first one writes the pin only when the
    scheduled status differs from the stored one, and then once, with the
    level of the scheduled status. *)
Theorem tick_idempotent (w : world) (now : dt_time) :
  manual_override w = false ->
  let w1 := exec (check_and_control_relay now) w in
  check_and_control_relay now w1 = (tt, w1) /\
  (status (relay_state w) = scheduled_status now w -> w1 = w) /\
  (status (relay_state w) <> scheduled_status now w ->
   gpio_writes w1 = level_of (scheduled_status now w) :: gpio_writes w).
Proof.
  intros Hov w1. subst w1.
  destruct w as [[s e st] sd ov g]; simpl in Hov; subst ov.
  unfold exec, check_and_control_relay, scheduled_status, bind, gets; simpl.
  destruct (is_on_schedule now s e) eqn:E, st; simpl; rewrite ?E; simpl;
    repeat split; intros; try reflexivity; congruence.
Qed.

(** ** The handlers *)

(** C2. Whatever the override was, pressing Update Schedule stores the two
    new bounds, clears the override and then runs the tick on that state;
    afterwards the status is the one the new window asks for at the clock
    reading of that tick. *)
Theorem update_schedule_resyncs (w : world)
    (new_start new_end now : dt_time) :
  let w' := step (UpdateSchedule new_start new_end now) w in
  let cleared :=
    mk_world (mk_relay_state new_start new_end (status (relay_state w)))
             (sensor_data w) false (gpio_writes w) in
  start_time (relay_state w') = new_start /\
  end_time (relay_state w') = new_end /\
  manual_override w' = false /\
  w' = exec (check_and_control_relay now) cleared /\
  status (relay_state w') =
    (if is_on_schedule now new_start new_end then ON else OFF).
Proof.
  destruct w as [[s e st] sd ov g].
  unfold step, exec, update_schedule, st_button, check_and_control_relay,
    bind, gets; simpl.
  destruct ov; simpl;
    destruct (is_on_schedule now new_start new_end), st; simpl;
    repeat split; reflexivity.
Qed.

(** C7. Pressing Resume Automated Schedule leaves the override off and
    touches nothing else: the relay state (window and status), the readings
    and the sequence of pin writes are the ones before. When the override
    is already off the button is not on the page and the state is returned
    as it is. *)
Theorem resume_schedule_only_clears_override (w : world) :
  let w' := step ResumeSchedule w in
  manual_override w' = false /\
  relay_state w' = relay_state w /\
  sensor_data w' = sensor_data w /\
  gpio_writes w' = gpio_writes w.
Proof.
  destruct w as [rs sd ov g].
  unfold step, exec, resume_schedule, st_button, bind, gets; simpl.
  destruct ov; simpl; repeat split; reflexivity.
Qed.

(** C3, as the code has it. A manual command whose click reaches the
    handler sets the override, writes the level of the commanded status to
    the pin once and stores that status, with no test of the stored status:
    it does so also when the status is already the commanded one, and the
    window and the readings are left alone. What depends on the status is
    the offer: the button of a command is drawn enabled exactly on a page
    whose stored status differs from the commanded one. *)
Theorem manual_command_unconditional_once_clicked (w : world)
    (x : relay_status) :
  let w' := step (ManualCommand x) w in
  fst (manual_command x w) = true /\
  manual_override w' = true /\
  gpio_writes w' = level_of x :: gpio_writes w /\
  status (relay_state w') = x /\
  start_time (relay_state w') = start_time (relay_state w) /\
  end_time (relay_state w') = end_time (relay_state w) /\
  sensor_data w' = sensor_data w /\
  (command_available x w = true <-> status (relay_state w) <> x).
Proof.
  destruct w as [[s e st] sd ov g].
  unfold step, exec, manual_command, turn_on_now, turn_off_now, st_button,
    command_available, rendered_disabled, bind, gets; simpl.
  destruct x, st; simpl; repeat split; intros; congruence.
Qed.

(** ** The invariant between the status and the pin *)

Lemma consistent_after_write (rs : relay_state_t) (sd : sensor_data_t)
    (ov : bool) (g : list level) (x : relay_status) :
  relay_consistent
    (mk_world (mk_relay_state (start_time rs) (end_time rs) x) sd ov
              (level_of x :: g)).
Proof.
  unfold relay_consistent, pin_level; simpl.
  destruct x; simpl; repeat split; intros; congruence.
Qed.

Lemma consistent_frame (w w' : world) :
  status (relay_state w') = status (relay_state w) ->
  gpio_writes w' = gpio_writes w ->
  relay_consistent w -> relay_consistent w'.
Proof.
  unfold relay_consistent, pin_level. intros -> ->. exact (fun H => H).
Qed.

Lemma tick_consistent (now : dt_time) (w : world) :
  relay_consistent w -> relay_consistent (exec (check_and_control_relay now) w).
Proof.
  intros H. destruct (manual_override w) eqn:Hov.
  - unfold exec. rewrite (tick_overridden w now Hov). exact H.
  - rewrite (tick_scheduled w now Hov).
    destruct (status_eqb (status (relay_state w)) (scheduled_status now w)) eqn:E.
    + apply status_eqb_eq in E.
      apply (consistent_frame w); [symmetry; exact E | reflexivity | exact H].
    + apply consistent_after_write.
Qed.

Lemma turn_on_consistent (c : bool) (w : world) :
  relay_consistent w -> relay_consistent (exec (turn_on_now c) w).
Proof.
  intros H. destruct w as [[s e st] sd ov g].
  unfold exec, turn_on_now, st_button, bind, gets; simpl.
  destruct c; simpl.
  - apply (consistent_after_write (mk_relay_state s e st) sd true g ON).
  - exact H.
Qed.

Lemma turn_off_consistent (c : bool) (w : world) :
  relay_consistent w -> relay_consistent (exec (turn_off_now c) w).
Proof.
  intros H. destruct w as [[s e st] sd ov g].
  unfold exec, turn_off_now, st_button, bind, gets; simpl.
  destruct c; simpl.
  - apply (consistent_after_write (mk_relay_state s e st) sd true g OFF).
  - exact H.
Qed.

Lemma resume_consistent (c : bool) (w : world) :
  relay_consistent w -> relay_consistent (exec (resume_schedule c) w).
Proof.
  intros H. destruct w as [rs sd ov g].
  unfold exec, resume_schedule, st_button, bind, gets; simpl.
  destruct ov, c; simpl; exact H.
Qed.

Lemma update_consistent (c : bool) (s e now : dt_time) (w : world) :
  relay_consistent w -> relay_consistent (exec (update_schedule c s e now) w).
Proof.
  intros H. unfold update_schedule, st_button.
  destruct c; simpl; [| exact H].
  set (cleared :=
         mk_world (mk_relay_state s e (status (relay_state w)))
                  (sensor_data w) false (gpio_writes w)).
  assert (Hc : relay_consistent cleared)
    by (apply (consistent_frame w); [reflexivity | reflexivity | exact H]).
  pose proof (tick_consistent now cleared Hc) as Ht.
  destruct w as [[s0 e0 st] sd ov g].
  unfold exec, bind, gets, set_start_time, set_end_time, set_manual_override,
    ret in *; simpl in *.
  destruct ov; simpl;
    destruct (check_and_control_relay now cleared) as [u w2] eqn:E;
    subst cleared; rewrite E in *; simpl in *; exact Ht.
Qed.

Lemma step_consistent (ev : event) (w : world) :
  relay_consistent w -> relay_consistent (step ev w).
Proof.
  destruct ev as [now | x | | s e now]; simpl.
  - apply tick_consistent.
  - destruct x; simpl; [apply turn_on_consistent | apply turn_off_consistent].
  - apply resume_consistent.
  - apply update_consistent.
Qed.

Lemma run_consistent (evs : list event) (w : world) :
  relay_consistent w -> relay_consistent (run evs w).
Proof.
  unfold run. revert w.
  induction evs as [| ev evs IH]; intros w H; simpl.
  - exact H.
  - apply IH, step_consistent, H.
Qed.

Lemma preserves_ret {A} (a : A) : preserves (ret a).
Proof. intros w H. exact H. Qed.

Lemma preserves_bind {A B} (m : M A) (k : A -> M B) :
  preserves m -> (forall a, preserves (k a)) -> preserves (bind m k).
Proof.
  intros Hm Hk w H. unfold exec, bind.
  specialize (Hm w H). unfold exec in Hm.
  destruct (m w) as [a w1]. simpl in Hm.
  apply (Hk a w1 Hm).
Qed.

(** ** Reading the sensor *)

Section SensorFacts.

Variable num : Type.
Variable fmt : num -> string.

Local Abbreviation read := (read_sensor_data num fmt).

(** The sensor code never touches the relay state, the override or the
    pin. *)
Lemma read_sensor_relay_frame (dev : option (dht num)) (w : world) :
  relay_state (exec (read dev) w) = relay_state w /\
  manual_override (exec (read dev) w) = manual_override w /\
  gpio_writes (exec (read dev) w) = gpio_writes w.
Proof.
  unfold exec, read_sensor_data, handle_read_error.
  destruct dev as [[[[t |] | [[|] [| a l]]] [[h |] | [[|] [| a' l']]]] |];
    simpl; repeat split; reflexivity.
Qed.

Lemma read_preserves (dev : option (dht num)) : preserves (read dev).
Proof.
  intros w H.
  destruct (read_sensor_relay_frame dev w) as (Hrs & _ & Hg).
  apply (consistent_frame w); [rewrite Hrs; reflexivity | exact Hg | exact H].
Qed.

(** A failed read hands back the state it was given. *)
Lemma read_failure_keeps_world (dev : option (dht num)) (w : world) :
  read_fails dev -> exec (read dev) w = w.
Proof.
  unfold exec, read_sensor_data, read_fails, handle_read_error.
  destruct dev as [[[t | [[|] [| a l]]] [h | [[|] [| a' l']]]] |];
    simpl; intros H; try reflexivity; contradiction.
Qed.

Lemma read_failure_returns (dev : option (dht num)) (w : world) :
  (forall d e, dev = Some d ->
     temperature_read d = Raises e \/ humidity_read d = Raises e ->
     printable e) ->
  fst (read dev w) = Returned.
Proof.
  unfold read_sensor_data, handle_read_error, printable.
  destruct dev as [[t h] |]; simpl; intros Hp; [| reflexivity].
  destruct t as [t | e].
  - destruct h as [h | e].
    + destruct t, h; reflexivity.
    + specialize (Hp _ e eq_refl (or_intror eq_refl)).
      destruct e as [[|] [| a l]]; simpl in *;
        try reflexivity. exfalso. apply Hp; reflexivity.
  - specialize (Hp _ e eq_refl (or_introl eq_refl)).
    destruct e as [[|] [| a l]]; simpl in *;
      try reflexivity. exfalso. apply Hp; reflexivity.
Qed.

(** A read with both values present stores both renderings. *)
Lemma read_complete (t h : num) (w : world) :
  sensor_data
    (exec (read (Some (mk_dht (Value (Some t)) (Value (Some h))))) w) =
  mk_sensor_data (fmt t ++ "°C") (fmt h ++ "%").
Proof. reflexivity. Qed.

Lemma script_run_preserves (i : run_input num) :
  preserves (script_run num fmt i).
Proof.
  unfold script_run.
  apply preserves_bind; [apply read_preserves |].
  intros [|]; [| apply preserves_ret].
  apply preserves_bind; [intros w; apply tick_consistent |]. intros _.
  apply preserves_bind; [intros w; apply resume_consistent |].
  intros [|]; [apply preserves_ret |].
  apply preserves_bind; [intros w; apply turn_on_consistent |].
  intros [|]; [apply preserves_ret |].
  apply preserves_bind; [intros w; apply turn_off_consistent |].
  intros [|]; [apply preserves_ret |].
  apply preserves_bind; [intros w; apply update_consistent |].
  intros _. apply preserves_ret.
Qed.

Lemma script_runs_consistent (ins : list (run_input num)) (w : world) :
  relay_consistent w -> relay_consistent (script_runs num fmt ins w).
Proof.
  unfold script_runs. revert w.
  induction ins as [| i ins IH]; intros w H; simpl.
  - exact H.
  - apply IH, script_run_preserves, H.
Qed.

End SensorFacts.

(** C8, at the input where the code departs from it. When the device raises
    a [RuntimeError] (or a subclass) whose argument tuple is empty, the
    first handler's [error.args[0]] raises [IndexError] and that exception
    leaves [read_sensor_data]; the stored readings are untouched. *)
Theorem bare_runtime_error_escapes (num : Type) (fmt : num -> string)
    (h : access num) (w : world) :
  read_sensor_data num fmt
    (Some (mk_dht (Raises (mk_exn RuntimeError [])) h)) w =
  (Propagated_IndexError, w).
Proof. reflexivity. Qed.

(** C9. A read in which the temperature or the humidity comes back [None]
    stores nothing: both fields, and the rest of the state, are as
    before. *)
Theorem incomplete_reading_updates_neither (num : Type) (fmt : num -> string)
    (d : dht num) (w : world) :
  reading_incomplete d ->
  let w' := exec (read_sensor_data num fmt (Some d)) w in
  temperature (sensor_data w') = temperature (sensor_data w) /\
  humidity (sensor_data w') = humidity (sensor_data w) /\
  w' = w.
Proof.
  unfold reading_incomplete, exec, read_sensor_data, handle_read_error.
  destruct d as [t h]; simpl.
  intros [Ht | Hh].
  - rewrite Ht.
    destruct h as [[h |] | [[|] [| a l]]]; simpl; repeat split; reflexivity.
  - rewrite Hh.
    destruct t as [[t |] | [[|] [| a l]]]; simpl; repeat split; reflexivity.
Qed.

(** C10. After initialisation the stored status is ON exactly when the pin
    was last driven LOW and OFF exactly when it was last driven HIGH, and
    this stays so along every sequence of ticks, manual commands, resumes
    and schedule updates, and along every sequence of executions of the
    whole script. *)
Theorem status_matches_pin :
  relay_consistent initial_world /\
  (forall evs : list event, relay_consistent (run evs initial_world)) /\
  (forall (num : Type) (fmt : num -> string) (ins : list (run_input num)),
     relay_consistent (script_runs num fmt ins initial_world)).
Proof.
  assert (H0 : relay_consistent initial_world).
  { unfold relay_consistent, pin_level; simpl.
    repeat split; intros; congruence. }
  split; [exact H0 |]. split.
  - intros evs. apply run_consistent, H0.
  - intros num fmt ins. apply script_runs_consistent, H0.
Qed.

(** ** Concrete runs *)

Lemma valid_hm (h m : Z) : 0 <= h < 24 -> 0 <= m < 60 -> valid_time (hm h m).
Proof. unfold valid_time, hm; simpl. lia. Qed.

(** The overnight window 22:00 to 06:00 at 23:00, 05:00 and 12:00. *)
Example overnight_23 : is_on_schedule (hm 23 0) (hm 22 0) (hm 6 0) = true.
Proof. reflexivity. Qed.

Example overnight_05 : is_on_schedule (hm 5 0) (hm 22 0) (hm 6 0) = true.
Proof. reflexivity. Qed.

Example overnight_12 : is_on_schedule (hm 12 0) (hm 22 0) (hm 6 0) = false.
Proof. reflexivity. Qed.

(** Window 09:00 to 17:00, 10:00, no override, status OFF: one tick turns
    the relay on with a single LOW write. *)
Example tick_turns_on :
  exec (check_and_control_relay (hm 10 0))
       (mk_world (mk_relay_state (hm 9 0) (hm 17 0) OFF)
                 (mk_sensor_data "N/A" "N/A") false [HIGH]) =
  mk_world (mk_relay_state (hm 9 0) (hm 17 0) ON)
           (mk_sensor_data "N/A" "N/A") false [LOW; HIGH].
Proof. reflexivity. Qed.

(** Status ON, Turn OFF Now, then a tick at 10:00 inside the window: the
    relay stays off under the override. *)
Example manual_off_then_tick :
  run [ManualCommand OFF; Tick (hm 10 0)]
      (mk_world (mk_relay_state (hm 9 0) (hm 17 0) ON)
                (mk_sensor_data "N/A" "N/A") false [LOW; HIGH]) =
  mk_world (mk_relay_state (hm 9 0) (hm 17 0) OFF)
           (mk_sensor_data "N/A" "N/A") true [HIGH; LOW; HIGH].
Proof. reflexivity. Qed.

(** A complete integer reading is stored with its units. *)
Example read_24_50 :
  sensor_data
    (exec (read_sensor_data Z fmt_int
             (Some (mk_dht (Value (Some 24)) (Value (Some 50)))))
          initial_world) =
  mk_sensor_data "24°C" "50%".
Proof. reflexivity. Qed.

(** The re-assertion C3 speaks of does happen: at 10:00, inside the window
    09:00 to 17:00, a click on Turn ON Now made while the relay was off is
    delivered to an execution whose tick has just switched the relay on;
    the handler writes LOW a second time and sets the override. *)
Example pending_click_reasserts :
  exec (script_run Z fmt_int
          (mk_run_input None (hm 10 0) ClickTurnOn (hm 9 0) (hm 17 0) (hm 10 0)))
       office_world =
  mk_world (mk_relay_state (hm 9 0) (hm 17 0) ON)
           (mk_sensor_data "N/A" "N/A") true [LOW; LOW; HIGH].
Proof. reflexivity. Qed.

(** C3 as the spec words it fails on the offer of the command: on the page
    drawn from the initial state, whose status is OFF, the Turn OFF Now
    button is disabled, so the command for the status already stored is
    not available there. *)
Lemma manual_command_not_offered_when_already_there :
  status (relay_state initial_world) = OFF /\
  rendered_disabled OFF initial_world = true /\
  command_available OFF initial_world <> true.
Proof.
  repeat split. simpl. discriminate.
Qed.

(** ** Instances of the conditional statements *)

Lemma overnight_window_on_iff_witness :
  let w := overnight_world in
  let now := hm 23 0 in
  (is_on_schedule now (hm 22 0) (hm 6 0) = true <->
   micros now >= micros (hm 22 0) \/ micros now < micros (hm 6 0)) /\
  (status (relay_state (exec (check_and_control_relay now) w)) = ON <->
   micros now >= micros (hm 22 0) \/ micros now < micros (hm 6 0)).
Proof.
  apply (overnight_window_on_iff overnight_world (hm 23 0)).
  - apply valid_hm; lia.
  - apply valid_hm; lia.
  - apply valid_hm; lia.
  - reflexivity.
  - reflexivity.
Defined.

Lemma same_day_window_on_iff_witness :
  let w := office_world in
  let now := hm 10 0 in
  (is_on_schedule now (hm 9 0) (hm 17 0) = true <->
   micros (hm 9 0) <= micros now < micros (hm 17 0)) /\
  (status (relay_state (exec (check_and_control_relay now) w)) = ON <->
   micros (hm 9 0) <= micros now < micros (hm 17 0)) /\
  (hm 9 0 = hm 17 0 -> is_on_schedule now (hm 9 0) (hm 17 0) = false).
Proof.
  apply (same_day_window_on_iff office_world (hm 10 0)).
  - apply valid_hm; lia.
  - apply valid_hm; lia.
  - apply valid_hm; lia.
  - vm_compute. discriminate.
  - reflexivity.
Defined.

Lemma tick_noop_under_override_witness :
  let w := exec (manual_command ON) initial_world in
  let nows := [hm 12 0; hm 23 59; hm 6 0] in
  manual_override w = true /\
  fst (manual_command ON initial_world) = true /\
  (check_and_control_relay (hm 12 0) w = (tt, w) /\ ticks nows w = w) /\
  (ticks nows w = w /\
   status (relay_state (ticks nows w)) = ON /\
   manual_override (ticks nows w) = true).
Proof.
  split; [reflexivity |]. split; [reflexivity |]. split.
  - apply (proj1 (tick_noop_under_override
                    (exec (manual_command ON) initial_world) ON (hm 12 0)
                    [hm 12 0; hm 23 59; hm 6 0])).
    reflexivity.
  - apply (proj2 (tick_noop_under_override
                    initial_world ON (hm 12 0)
                    [hm 12 0; hm 23 59; hm 6 0])).
    reflexivity.
Defined.

Lemma tick_idempotent_witness :
  let w := office_world in
  let now := hm 10 0 in
  let w1 := exec (check_and_control_relay now) w in
  manual_override w = false /\
  gpio_writes w1 = [LOW; HIGH] /\
  check_and_control_relay now w1 = (tt, w1) /\
  (status (relay_state w) = scheduled_status now w -> w1 = w) /\
  (status (relay_state w) <> scheduled_status now w ->
   gpio_writes w1 = level_of (scheduled_status now w) :: gpio_writes w).
Proof.
  split; [reflexivity |]. split; [reflexivity |].
  apply (tick_idempotent office_world (hm 10 0)). reflexivity.
Defined.

(** The command for ON in a state whose status is already ON: not offered
    on a page drawn from it, and unconditional once its click is there. *)
Lemma manual_command_unconditional_once_clicked_witness :
  let w := exec (check_and_control_relay (hm 10 0)) office_world in
  let w' := step (ManualCommand ON) w in
  status (relay_state w) = ON /\
  command_available ON w = false /\
  manual_override w' = true /\
  gpio_writes w' = [LOW; LOW; HIGH] /\
  status (relay_state w') = ON.
Proof.
  destruct (manual_command_unconditional_once_clicked
              (exec (check_and_control_relay (hm 10 0)) office_world) ON)
    as (_ & Hov & Hg & Hst & _).
  split; [reflexivity |]. split; [reflexivity |].
  split; [exact Hov |]. split; [exact Hg | exact Hst].
Defined.

Lemma incomplete_reading_updates_neither_witness :
  let d := mk_dht (Value (Some 24)) (Value None) in
  let w' := exec (read_sensor_data Z fmt_int (Some d)) initial_world in
  reading_incomplete d /\
  temperature (sensor_data w') = "N/A"%string /\
  humidity (sensor_data w') = "N/A"%string /\
  w' = initial_world.
Proof.
  assert (Hd : reading_incomplete (mk_dht (Value (Some 24)) (Value None)))
    by (right; reflexivity).
  split; [exact Hd |].
  apply (incomplete_reading_updates_neither Z fmt_int
           (mk_dht (Value (Some 24)) (Value None)) initial_world Hd).
Defined.

(** * Further properties of the schedule test *)

(** The window bounds are start-inclusive and end-exclusive: at the end
    bound the test is false for every window, and at the start bound it is
    true for every window whose bounds differ. *)
Theorem schedule_bounds_inclusive_exclusive (start end_ : dt_time) :
  valid_time start -> valid_time end_ ->
  is_on_schedule end_ start end_ = false /\
  (start <> end_ -> is_on_schedule start start end_ = true).
Proof.
  intros Hs He.
  assert (Hne : start <> end_ -> micros start <> micros end_)
    by (intros Hd Hm; apply Hd, micros_inj; assumption).
  destruct (Z_gt_le_dec (micros start) (micros end_)) as [Hgt | Hle].
  - split.
    + apply not_true_is_false. intros E.
      apply (is_on_schedule_overnight end_ start end_ He Hs He Hgt) in E. lia.
    + intros _.
      apply (is_on_schedule_overnight start start end_ Hs Hs He Hgt). lia.
  - split.
    + apply not_true_is_false. intros E.
      apply (is_on_schedule_same_day end_ start end_ He Hs He Hle) in E. lia.
    + intros Hd. specialize (Hne Hd).
      apply (is_on_schedule_same_day start start end_ Hs Hs He Hle). lia.
Qed.

(** Exchanging the two bounds of a window with distinct bounds complements
    it: the relay is scheduled on under (end, start) exactly when it is
    scheduled off under (start, end). *)
Theorem swapped_window_is_complement (now start end_ : dt_time) :
  valid_time now -> valid_time start -> valid_time end_ ->
  start <> end_ ->
  is_on_schedule now end_ start = negb (is_on_schedule now start end_).
Proof.
  intros Hn Hs He Hd.
  assert (Hne : micros start <> micros end_)
    by (intros Hm; apply Hd, micros_inj; assumption).
  destruct (Z_gt_le_dec (micros start) (micros end_)) as [Hgt | Hle].
  - pose proof (is_on_schedule_overnight now start end_ Hn Hs He Hgt) as H1.
    assert (Hle' : micros end_ <= micros start) by lia.
    pose proof (is_on_schedule_same_day now end_ start Hn He Hs Hle') as H2.
    destruct (is_on_schedule now start end_), (is_on_schedule now end_ start);
      simpl; try reflexivity; exfalso.
    + assert (A : micros end_ <= micros now < micros start)
        by (apply H2; reflexivity).
      assert (B : micros now >= micros start \/ micros now < micros end_)
        by (apply H1; reflexivity).
      lia.
    + assert (A : ~ (micros end_ <= micros now < micros start))
        by (intros A; apply H2 in A; discriminate).
      assert (B : ~ (micros now >= micros start \/ micros now < micros end_))
        by (intros B; apply H1 in B; discriminate).
      lia.
  - assert (Hgt : micros end_ > micros start) by lia.
    pose proof (is_on_schedule_same_day now start end_ Hn Hs He Hle) as H1.
    pose proof (is_on_schedule_overnight now end_ start Hn He Hs Hgt) as H2.
    destruct (is_on_schedule now start end_), (is_on_schedule now end_ start);
      simpl; try reflexivity; exfalso.
    + assert (A : micros now >= micros end_ \/ micros now < micros start)
        by (apply H2; reflexivity).
      assert (B : micros start <= micros now < micros end_)
        by (apply H1; reflexivity).
      lia.
    + assert (A : ~ (micros now >= micros end_ \/ micros now < micros start))
        by (intros A; apply H2 in A; discriminate).
      assert (B : ~ (micros start <= micros now < micros end_))
        by (intros B; apply H1 in B; discriminate).
      lia.
Qed.

(** * Further properties of the control events *)

Lemma tick_keeps_schedule_mode (w : world) (now : dt_time) :
  manual_override w = false ->
  let w' := exec (check_and_control_relay now) w in
  manual_override w' = false /\
  start_time (relay_state w') = start_time (relay_state w) /\
  end_time (relay_state w') = end_time (relay_state w).
Proof.
  intros H w'. subst w'. rewrite (tick_scheduled w now H). simpl. auto.
Qed.

Lemma ticks_keep_schedule_mode (nows : list dt_time) (w : world) :
  manual_override w = false ->
  manual_override (ticks nows w) = false /\
  start_time (relay_state (ticks nows w)) = start_time (relay_state w) /\
  end_time (relay_state (ticks nows w)) = end_time (relay_state w).
Proof.
  unfold ticks, run. revert w.
  induction nows as [| now nows IH]; intros w H; simpl.
  - auto.
  - destruct (tick_keeps_schedule_mode w now H) as (Hov & Hs & He).
    destruct (IH _ Hov) as (Hov' & Hs' & He').
    rewrite Hov', Hs', He', Hs, He. auto.
Qed.

Lemma ticks_snoc (nows : list dt_time) (now : dt_time) (w : world) :
  ticks (nows ++ [now]) w = step (Tick now) (ticks nows w).
Proof.
  unfold ticks, run. rewrite map_app, fold_left_app. reflexivity.
Qed.

(** With the override off, the status after a run of ticks is the scheduled
    status at the clock reading of the last one, whatever the status was
    before and whatever the earlier readings were; the window and the
    override are as before. *)
Theorem ticks_follow_last_clock (w : world) (nows : list dt_time)
    (now : dt_time) :
  manual_override w = false ->
  let w' := ticks (nows ++ [now]) w in
  status (relay_state w') = scheduled_status now w /\
  manual_override w' = false /\
  start_time (relay_state w') = start_time (relay_state w) /\
  end_time (relay_state w') = end_time (relay_state w).
Proof.
  intros H w'. subst w'. rewrite ticks_snoc.
  destruct (ticks_keep_schedule_mode nows w H) as (Hov & Hs & He).
  simpl. rewrite (tick_scheduled _ now Hov). simpl.
  unfold scheduled_status. rewrite Hs, He. auto.
Qed.

(** Pressing Update Schedule with the bounds already stored is the same as
    pressing Resume and letting one tick run at the same clock reading: the
    two routes end in the same state, pin writes included. *)
Theorem update_same_window_is_resume_then_tick (w : world) (now : dt_time) :
  step (UpdateSchedule (start_time (relay_state w))
                       (end_time (relay_state w)) now) w =
  step (Tick now) (step ResumeSchedule w).
Proof.
  destruct w as [[s e st] sd ov g].
  unfold step, exec, update_schedule, resume_schedule, st_button,
    check_and_control_relay, bind, gets; simpl.
  destruct ov; simpl; destruct (is_on_schedule now s e), st; reflexivity.
Qed.

(** After a manual command the stored status is the commanded one in every
    case, also when it already was before the command; and when the
    status agreed with the pin before, the pin is at the level of the
    commanded status afterwards. *)
Theorem manual_command_reaches_target (w : world) (x : relay_status) :
  let w' := step (ManualCommand x) w in
  status (relay_state w') = x /\
  (relay_consistent w -> pin_level w' = Some (level_of x)).
Proof.
  destruct w as [[s e st] sd ov g].
  unfold step, exec, manual_command, turn_on_now, turn_off_now, st_button,
    relay_consistent, pin_level, bind, gets; simpl.
  destruct x, st; simpl; split; try reflexivity; intros [[H1 _] [H2 _]];
    first [reflexivity | apply H1; reflexivity | apply H2; reflexivity].
Qed.

(** The override is switched on by nothing but a manual command: if it is
    on after an event, it was on before or the event is a manual command.
    A tick, Resume and Update Schedule never set it, and Resume and Update
    Schedule always leave it off. *)
Theorem override_set_only_by_manual_command (ev : event) (w : world) :
  (manual_override (step ev w) = true ->
   manual_override w = true \/ exists x, ev = ManualCommand x) /\
  (ev = ResumeSchedule \/ (exists s e now, ev = UpdateSchedule s e now) ->
   manual_override (step ev w) = false).
Proof.
  destruct w as [[s e st] sd ov g].
  destruct ev as [now | x | | s' e' now];
    unfold step, exec, manual_command, turn_on_now, turn_off_now,
      resume_schedule, update_schedule, st_button, check_and_control_relay,
      bind, gets; simpl.
  - split.
    + destruct ov; simpl; [intros _; left; reflexivity |].
      destruct (is_on_schedule now s e), st; simpl; intros H; discriminate H.
    + intros [H | (s0 & e0 & n0 & H)]; discriminate H.
  - split.
    + intros _. right. exists x. reflexivity.
    + intros [H | (s0 & e0 & n0 & H)]; discriminate H.
  - split.
    + destruct ov; simpl; intros H; discriminate H.
    + intros _. destruct ov; reflexivity.
  - split.
    + destruct ov; simpl;
        destruct (is_on_schedule now s' e'), st; simpl;
        intros H; discriminate H.
    + intros _.
      destruct ov; simpl;
        destruct (is_on_schedule now s' e'), st; reflexivity.
Qed.

(** No control event touches the sensor readings, and only Update Schedule
    changes the window. *)
Theorem events_frame (ev : event) (w : world) :
  sensor_data (step ev w) = sensor_data w /\
  ((forall s e now, ev <> UpdateSchedule s e now) ->
   start_time (relay_state (step ev w)) = start_time (relay_state w) /\
   end_time (relay_state (step ev w)) = end_time (relay_state w)).
Proof.
  destruct w as [[s e st] sd ov g].
  destruct ev as [now | x | | s' e' now];
    unfold step, exec, manual_command, turn_on_now, turn_off_now,
      resume_schedule, update_schedule, st_button, check_and_control_relay,
      bind, gets; simpl.
  - destruct ov; simpl; [auto |].
    destruct (is_on_schedule now s e), st; simpl; auto.
  - destruct x, st; simpl; auto.
  - destruct ov; simpl; auto.
  - split.
    + destruct ov; simpl;
        destruct (is_on_schedule now s' e'), st; simpl; reflexivity.
    + intros H. exfalso. apply (H s' e' now). reflexivity.
Qed.

(** * When a write to the pin repeats the level *)

Lemma toggling_after_write (s e s' e' : dt_time) (st x : relay_status)
    (sd sd' : sensor_data_t) (ov ov' : bool) (g : list level) :
  toggling (mk_world (mk_relay_state s e st) sd ov g) ->
  st <> x ->
  toggling (mk_world (mk_relay_state s' e' x) sd' ov' (level_of x :: g)).
Proof.
  unfold toggling, relay_consistent, pin_level; simpl.
  intros [[[H1 H1'] [H2 H2']] Halt] Hne.
  destruct g as [| l g'].
  - destruct st; [specialize (H1 eq_refl) | specialize (H2 eq_refl)];
      discriminate.
  - simpl in *.
    assert (Hl : l = level_of st).
    { destruct st; [specialize (H1 eq_refl) | specialize (H2 eq_refl)];
        simpl; congruence. }
    subst l. split.
    + destruct x; simpl; repeat split; intros; congruence.
    + destruct x, st; simpl in *; try congruence; exact Halt.
Qed.

Lemma toggling_frame (w w' : world) :
  status (relay_state w') = status (relay_state w) ->
  gpio_writes w' = gpio_writes w ->
  toggling w -> toggling w'.
Proof.
  unfold toggling, relay_consistent, pin_level. intros -> ->. exact (fun H => H).
Qed.

Lemma tick_toggling (now : dt_time) (w : world) :
  toggling w -> toggling (exec (check_and_control_relay now) w).
Proof.
  intros H. destruct (manual_override w) eqn:Hov.
  - unfold exec. rewrite (tick_overridden w now Hov). exact H.
  - rewrite (tick_scheduled w now Hov).
    destruct (status_eqb (status (relay_state w)) (scheduled_status now w)) eqn:E.
    + apply status_eqb_eq in E.
      apply (toggling_frame w); [symmetry; exact E | reflexivity | exact H].
    + destruct w as [[s e st] sd ov g]; simpl in *.
      apply (toggling_after_write s e s e st _ sd sd ov false g H).
      intros Heq. rewrite Heq in E. destruct (scheduled_status _ _); discriminate.
Qed.

Lemma manual_toggling (x : relay_status) (w : world) :
  status (relay_state w) <> x ->
  toggling w -> toggling (exec (manual_command x) w).
Proof.
  intros Hne H. destruct w as [[s e st] sd ov g]. simpl in Hne.
  destruct x; unfold exec, manual_command, turn_on_now, turn_off_now,
    st_button, bind, gets; simpl.
  - apply (toggling_after_write s e s e st ON sd sd ov true g H Hne).
  - apply (toggling_after_write s e s e st OFF sd sd ov true g H Hne).
Qed.

Lemma resume_toggling (c : bool) (w : world) :
  toggling w -> toggling (exec (resume_schedule c) w).
Proof.
  intros H. destruct w as [rs sd ov g].
  unfold exec, resume_schedule, st_button, bind, gets; simpl.
  destruct ov, c; simpl; exact H.
Qed.

Lemma update_toggling (c : bool) (s e now : dt_time) (w : world) :
  toggling w -> toggling (exec (update_schedule c s e now) w).
Proof.
  intros H. unfold update_schedule, st_button.
  destruct c; simpl; [| exact H].
  set (cleared :=
         mk_world (mk_relay_state s e (status (relay_state w)))
                  (sensor_data w) false (gpio_writes w)).
  assert (Hc : toggling cleared)
    by (apply (toggling_frame w); [reflexivity | reflexivity | exact H]).
  pose proof (tick_toggling now cleared Hc) as Ht.
  destruct w as [[s0 e0 st] sd ov g].
  unfold exec, bind, gets, set_start_time, set_end_time, set_manual_override,
    ret in *; simpl in *.
  destruct ov; simpl;
    destruct (check_and_control_relay now cleared) as [u w2] eqn:E;
    subst cleared; rewrite E in *; simpl in *; exact Ht.
Qed.

Lemma step_toggling (ev : event) (w : world) :
  is_change ev w -> toggling w -> toggling (step ev w).
Proof.
  destruct ev as [now | x | | s e now]; simpl; intros Hc.
  - apply tick_toggling.
  - apply manual_toggling, Hc.
  - apply resume_toggling.
  - apply update_toggling.
Qed.

Lemma run_toggling (evs : list event) (w : world) :
  commands_change evs w -> toggling w -> toggling (run evs w).
Proof.
  unfold run. revert w.
  induction evs as [| ev evs IH]; intros w Hc H; simpl.
  - exact H.
  - destruct Hc as [Hev Hrest].
    apply IH; [exact Hrest | apply step_toggling; assumption].
Qed.

Lemma initial_toggling : toggling initial_world.
Proof.
  unfold toggling, relay_consistent, pin_level; simpl.
  repeat split; intros; congruence.
Qed.

(** The schedule never re-asserts the pin, a manual command can. From
    initialisation on, along every sequence of ticks, resumes, schedule
    updates and manual commands in which each manual command asks for a
    status other than the stored one, consecutive writes to the pin
    alternate. A manual command for the status already stored, issued in a
    state where the status agrees with the pin, writes the level the pin
    already has. *)
Theorem pin_writes_alternate_unless_reasserted :
  (forall evs : list event,
     commands_change evs initial_world ->
     alternating (gpio_writes (run evs initial_world)) = true) /\
  (forall (w : world) (x : relay_status),
     relay_consistent w ->
     status (relay_state w) = x ->
     alternating (gpio_writes (step (ManualCommand x) w)) = false).
Proof.
  split.
  - intros evs Hc.
    exact (proj2 (run_toggling evs initial_world Hc initial_toggling)).
  - intros [[s e st] sd ov g] x [[H1 _] [H2 _]] Hst.
    unfold pin_level in *. simpl in *. subst x.
    destruct st; unfold step, exec, manual_command, turn_on_now, turn_off_now,
      st_button, bind, gets; simpl.
    + specialize (H1 eq_refl). destruct g as [| l g']; [discriminate |].
      simpl in H1. injection H1 as ->. reflexivity.
    + specialize (H2 eq_refl). destruct g as [| l g']; [discriminate |].
      simpl in H2. injection H2 as ->. reflexivity.
Qed.

(** * Further properties of the sensor path *)

Lemma tick_sensor_frame (now : dt_time) (w : world) :
  sensor_data (exec (check_and_control_relay now) w) = sensor_data w.
Proof.
  destruct w as [[s e st] sd ov g].
  unfold exec, check_and_control_relay, bind, gets; simpl.
  destruct ov; simpl; [reflexivity |].
  destruct (is_on_schedule now s e), st; reflexivity.
Qed.

Lemma resume_sensor_frame (c : bool) (w : world) :
  sensor_data (exec (resume_schedule c) w) = sensor_data w.
Proof.
  destruct w as [rs sd ov g].
  unfold exec, resume_schedule, st_button, bind, gets; simpl.
  destruct ov, c; reflexivity.
Qed.

Lemma turn_on_sensor_frame (c : bool) (w : world) :
  sensor_data (exec (turn_on_now c) w) = sensor_data w.
Proof.
  destruct w as [[s e st] sd ov g].
  unfold exec, turn_on_now, st_button, bind, gets; simpl.
  destruct c, st; reflexivity.
Qed.

Lemma turn_off_sensor_frame (c : bool) (w : world) :
  sensor_data (exec (turn_off_now c) w) = sensor_data w.
Proof.
  destruct w as [[s e st] sd ov g].
  unfold exec, turn_off_now, st_button, bind, gets; simpl.
  destruct c, st; reflexivity.
Qed.

Lemma update_sensor_frame (c : bool) (s e now : dt_time) (w : world) :
  sensor_data (exec (update_schedule c s e now) w) = sensor_data w.
Proof.
  destruct w as [[s0 e0 st] sd ov g].
  unfold exec, update_schedule, st_button, check_and_control_relay,
    bind, gets; simpl.
  destruct c; simpl; [| reflexivity].
  destruct ov; simpl; destruct (is_on_schedule now s e), st; reflexivity.
Qed.

Section SensorPath.

Variable num : Type.
Variable fmt : num -> string.

(** What a read stores: the renderings of a complete reading, or nothing. *)
Lemma read_sensor_data_stores (dev : option (dht num)) (w : world) :
  sensor_data (exec (read_sensor_data num fmt dev) w) =
  match complete_reading dev with
  | Some (t, h) => mk_sensor_data (fmt t ++ "°C") (fmt h ++ "%")
  | None => sensor_data w
  end.
Proof.
  unfold exec, read_sensor_data, handle_read_error, complete_reading.
  destruct dev as [[[[t |] | [[|] [| a l]]] [[h |] | [[|] [| a' l']]]] |];
    reflexivity.
Qed.

(** Nothing after the read touches the readings. *)
Lemma script_run_sensor_data (i : run_input num) (w : world) :
  sensor_data (exec (script_run num fmt i) w) =
  sensor_data (exec (read_sensor_data num fmt (device num i)) w).
Proof.
  unfold exec, script_run, bind.
  destruct (read_sensor_data num fmt (device num i) w) as [[|] w1]; simpl;
    [| reflexivity].
  pose proof (tick_sensor_frame (now_tick num i) w1) as F2. unfold exec in F2.
  destruct (check_and_control_relay (now_tick num i) w1) as [u w2].
  pose proof (resume_sensor_frame
                (is_click (clicked num i) ClickResume) w2) as F3.
  unfold exec in F3.
  destruct (resume_schedule _ w2) as [[|] w3]; simpl in *; [congruence |].
  pose proof (turn_on_sensor_frame
                (is_click (clicked num i) ClickTurnOn) w3) as F4.
  unfold exec in F4.
  destruct (turn_on_now _ w3) as [[|] w4]; simpl in *; [congruence |].
  pose proof (turn_off_sensor_frame
                (is_click (clicked num i) ClickTurnOff) w4) as F5.
  unfold exec in F5.
  destruct (turn_off_now _ w4) as [[|] w5]; simpl in *; [congruence |].
  pose proof (update_sensor_frame
                (is_click (clicked num i) ClickUpdate)
                (start_time_input num i) (end_time_input num i)
                (now_update num i) w5) as F6.
  unfold exec in F6.
  destruct (update_schedule _ _ _ _ w5) as [b w6]; simpl in *. congruence.
Qed.

(** The outcome of an execution is the outcome of its sensor read: nothing
    after the read raises. *)
Lemma script_run_outcome (i : run_input num) (w : world) :
  fst (script_run num fmt i w) = fst (read_sensor_data num fmt (device num i) w).
Proof.
  unfold script_run, bind.
  destruct (read_sensor_data num fmt (device num i) w) as [[|] w1]; simpl;
    [| reflexivity].
  destruct (check_and_control_relay (now_tick num i) w1) as [u w2].
  destruct (resume_schedule _ w2) as [[|] w3]; [reflexivity |].
  destruct (turn_on_now _ w3) as [[|] w4]; [reflexivity |].
  destruct (turn_off_now _ w4) as [[|] w5]; [reflexivity |].
  destruct (update_schedule _ _ _ _ w5) as [b w6]. reflexivity.
Qed.

Lemma read_propagates_unchanged (dev : option (dht num)) (w : world) :
  fst (read_sensor_data num fmt dev w) = Propagated_IndexError ->
  snd (read_sensor_data num fmt dev w) = w.
Proof.
  unfold read_sensor_data, handle_read_error.
  destruct dev as [[[[t |] | [[|] [| a l]]] [[h |] | [[|] [| a' l']]]] |];
    simpl; intros H; try reflexivity; discriminate H.
Qed.

End SensorPath.

(** After any sequence of executions of the script the stored readings are
    the two renderings of the temperature and the humidity that one read
    returned together, namely the read of the last execution in which both
    came back; when no execution had such a read they are the readings the
    sequence started from. So a stored temperature and a stored humidity
    always come from the same read. *)
Theorem readings_come_from_one_read (num : Type) (fmt : num -> string)
    (ins : list (run_input num)) (w : world) :
  sensor_data (script_runs num fmt ins w) =
  match last_complete_reading ins with
  | Some (t, h) => mk_sensor_data (fmt t ++ "°C") (fmt h ++ "%")
  | None => sensor_data w
  end.
Proof.
  unfold script_runs. revert w.
  induction ins as [| i rest IH]; intros w; simpl.
  - reflexivity.
  - rewrite IH.
    destruct (last_complete_reading rest) as [[t h] |]; [reflexivity |].
    rewrite script_run_sensor_data. apply read_sensor_data_stores.
Qed.

(** A temperature of 30 with no humidity, then 24 and 50 together, then a
    failed read: the page shows 24 and 50, never the 30. *)
Example readings_after_three_runs :
  sensor_data
    (script_runs Z fmt_int
       [ mk_run_input (Some (mk_dht (Value (Some 30)) (Value None)))
           (hm 6 0) NoClick (hm 5 30) (hm 9 30) (hm 6 0);
         mk_run_input (Some (mk_dht (Value (Some 24)) (Value (Some 50))))
           (hm 6 0) NoClick (hm 5 30) (hm 9 30) (hm 6 0);
         mk_run_input (Some (mk_dht (Value (Some 31))
                                    (Raises (mk_exn OtherException []))))
           (hm 6 0) NoClick (hm 5 30) (hm 9 30) (hm 6 0) ]
       initial_world) =
  mk_sensor_data "24°C" "50%".
Proof. reflexivity. Qed.

(** When the exception of [error.args[0]] leaves [read_sensor_data], the
    execution of the script ends there: the tick and the handlers do not
    run, so the whole state, relay status and pin included, is as it
    was. *)
Theorem sensor_crash_skips_relay_control (num : Type) (fmt : num -> string)
    (i : run_input num) (w : world) :
  fst (script_run num fmt i w) = Propagated_IndexError ->
  exec (script_run num fmt i) w = w.
Proof.
  intros H.
  assert (Hr : fst (read_sensor_data num fmt (device num i) w)
               = Propagated_IndexError)
    by (rewrite <- script_run_outcome; exact H).
  pose proof (read_propagates_unchanged num fmt _ w Hr) as Hw.
  unfold exec, script_run, bind.
  destruct (read_sensor_data num fmt (device num i) w) as [r w1].
  simpl in Hr, Hw. subst r w1. reflexivity.
Qed.

(** Without a sensor (the constructor raised in [setup_dht_sensor], so
    [dht_device] is [None]) every execution of the script returns normally,
    leaves the readings as they are, and runs the tick and the handlers on
    the state as if there had been no read. *)
Theorem absent_sensor_is_harmless (num : Type) (fmt : num -> string)
    (e : exn) (i : run_input num) (w : world) :
  device num i = setup_dht_sensor (inr e) ->
  fst (script_run num fmt i w) = Returned /\
  sensor_data (exec (script_run num fmt i) w) = sensor_data w /\
  read_sensor_data num fmt (device num i) w = (Returned, w).
Proof.
  intros Hd. simpl in Hd.
  assert (Hread : read_sensor_data num fmt (device num i) w = (Returned, w))
    by (rewrite Hd; reflexivity).
  split; [| split].
  - rewrite script_run_outcome, Hread. reflexivity.
  - unfold exec, script_run, bind. rewrite Hread.
    destruct (check_and_control_relay (now_tick num i) w) as [u w2] eqn:E2.
    assert (H2 : sensor_data w2 = sensor_data w).
    { pose proof (tick_sensor_frame (now_tick num i) w) as F.
      unfold exec in F. rewrite E2 in F. exact F. }
    destruct (resume_schedule (is_click (clicked num i) ClickResume) w2)
      as [b3 w3] eqn:E3.
    assert (H3 : sensor_data w3 = sensor_data w).
    { pose proof (resume_sensor_frame (is_click (clicked num i) ClickResume) w2) as F.
      unfold exec in F. rewrite E3 in F. simpl in F. congruence. }
    destruct b3; [exact H3 |].
    destruct (turn_on_now (is_click (clicked num i) ClickTurnOn) w3)
      as [b4 w4] eqn:E4.
    assert (H4 : sensor_data w4 = sensor_data w).
    { pose proof (turn_on_sensor_frame (is_click (clicked num i) ClickTurnOn) w3) as F.
      unfold exec in F. rewrite E4 in F. simpl in F. congruence. }
    destruct b4; [exact H4 |].
    destruct (turn_off_now (is_click (clicked num i) ClickTurnOff) w4)
      as [b5 w5] eqn:E5.
    assert (H5 : sensor_data w5 = sensor_data w).
    { pose proof (turn_off_sensor_frame (is_click (clicked num i) ClickTurnOff) w4) as F.
      unfold exec in F. rewrite E5 in F. simpl in F. congruence. }
    destruct b5; [exact H5 |].
    destruct (update_schedule (is_click (clicked num i) ClickUpdate)
                (start_time_input num i) (end_time_input num i)
                (now_update num i) w5) as [b6 w6] eqn:E6.
    pose proof (update_sensor_frame (is_click (clicked num i) ClickUpdate)
                  (start_time_input num i) (end_time_input num i)
                  (now_update num i) w5) as F.
    unfold exec in F. rewrite E6 in F. simpl in *. congruence.
  - exact Hread.
Qed.

(** A failed read, with the device absent or with either property access
    raising, changes nothing in the state. A read returns normally exactly
    when the exception it met, if any, is not a [RuntimeError] with an
    empty argument tuple. *)
Theorem failed_read_changes_nothing (num : Type) (fmt : num -> string)
    (dev : option (dht num)) (w : world) :
  read_fails dev ->
  exec (read_sensor_data num fmt dev) w = w /\
  (fst (read_sensor_data num fmt dev w) = Returned <->
   (forall e, met_exception dev = Some e -> printable e)).
Proof.
  intros Hf. split; [apply read_failure_keeps_world; exact Hf |].
  clear Hf.
  unfold read_sensor_data, handle_read_error, met_exception, printable.
  destruct dev as [[[[t |] | [[|] [| a l]]] [[h |] | [[|] [| a' l']]]] |];
    simpl; split; intros H;
    try reflexivity; try discriminate H;
    try (intros e0 He0; try discriminate He0;
         injection He0 as <-; simpl; intros Hc; congruence);
    exfalso;
    match goal with
    | Hp : forall e, Some ?x = Some e -> _ |- _ =>
        apply (Hp x eq_refl); reflexivity
    end.
Qed.

(** * How often one execution writes the pin *)

Lemma resume_not_clicked (w : world) : resume_schedule false w = (false, w).
Proof.
  unfold resume_schedule, st_button, bind, gets.
  destruct (manual_override w); reflexivity.
Qed.

Lemma turn_on_not_clicked (w : world) : turn_on_now false w = (false, w).
Proof. reflexivity. Qed.

Lemma turn_off_not_clicked (w : world) : turn_off_now false w = (false, w).
Proof. reflexivity. Qed.

Lemma update_not_clicked (s e now : dt_time) (w : world) :
  update_schedule false s e now w = (false, w).
Proof. reflexivity. Qed.

Lemma writes_between_same_start (w0 w1 w' : world) :
  gpio_writes w1 = gpio_writes w0 ->
  writes_between w0 w' = writes_between w1 w'.
Proof. unfold writes_between. intros ->. reflexivity. Qed.

(** One execution of the script writes the relay pin at most twice (once in
    the tick, once in the handler of the pressed button), at most once when
    no button was pressed, and never removes a write. *)
Theorem script_run_writes_at_most_twice (num : Type) (fmt : num -> string)
    (i : run_input num) (w : world) :
  let w' := exec (script_run num fmt i) w in
  0 <= writes_between w w' <= 2 /\
  (clicked num i = NoClick -> writes_between w w' <= 1).
Proof.
  intros w'. subst w'.
  destruct i as [dev now1 c s_in e_in now2].
  destruct (read_sensor_relay_frame num fmt dev w) as (_ & _ & Hg).
  unfold exec in *. unfold script_run, bind. simpl.
  destruct (read_sensor_data num fmt dev w) as [r w1]. simpl in Hg.
  rewrite (writes_between_same_start w w1 _ Hg). clear Hg w.
  destruct r; [| unfold writes_between; simpl; lia].
  destruct w1 as [[s e st] sd ov g].
  destruct c; simpl;
    unfold resume_schedule, turn_on_now, turn_off_now, update_schedule,
      check_and_control_relay, st_button, bind, gets;
    simpl;
    destruct ov; simpl;
    destruct (is_on_schedule now1 s e); simpl;
    destruct st; simpl;
    try (destruct (is_on_schedule now2 s_in e_in); simpl);
    unfold writes_between; cbn [gpio_writes List.length];
    split; try (intros Hc; try discriminate Hc); lia.
Qed.

(** An execution of the script with no button pressed, the override off and
    a sensor read that returns leaves the relay in the scheduled status for
    the clock reading of its tick, with the override still off and the
    window as it was. It writes the pin exactly when that status differs
    from the stored one: then one write, of the level of the scheduled
    status, is added, and otherwise the writes are the ones before. *)
Theorem refresh_syncs_relay (num : Type) (fmt : num -> string)
    (i : run_input num) (w : world) :
  clicked num i = NoClick ->
  manual_override w = false ->
  fst (script_run num fmt i w) = Returned ->
  let w' := exec (script_run num fmt i) w in
  let scheduled := scheduled_status (now_tick num i) w in
  status (relay_state w') = scheduled /\
  manual_override w' = false /\
  start_time (relay_state w') = start_time (relay_state w) /\
  end_time (relay_state w') = end_time (relay_state w) /\
  (status (relay_state w) = scheduled -> gpio_writes w' = gpio_writes w) /\
  (status (relay_state w) <> scheduled ->
   gpio_writes w' = level_of scheduled :: gpio_writes w).
Proof.
  destruct i as [dev now1 c s_in e_in now2]. simpl.
  intros -> Hov Hret.
  destruct (read_sensor_relay_frame num fmt dev w) as (Hrs & Hmo & Hg).
  unfold exec in *. unfold script_run, bind in *. simpl in *.
  destruct (read_sensor_data num fmt dev w) as [r w1]. simpl in *.
  destruct r; [| discriminate Hret].
  assert (Hov1 : manual_override w1 = false) by congruence.
  pose proof (tick_scheduled w1 now1 Hov1) as Ht. unfold exec in Ht.
  destruct (check_and_control_relay now1 w1) as [u w2]. simpl in Ht.
  rewrite resume_not_clicked. simpl.
  subst w2. unfold scheduled_status in *. simpl.
  rewrite Hrs, Hg.
  set (sch := if is_on_schedule now1 (start_time (relay_state w))
                                     (end_time (relay_state w))
              then ON else OFF).
  repeat split.
  - intros Heq. apply status_eqb_eq in Heq. rewrite Heq. reflexivity.
  - intros Hne.
    destruct (status_eqb (status (relay_state w)) sch) eqn:E;
      [apply status_eqb_eq in E; contradiction | reflexivity].
Qed.

(** * Instances of the further conditional statements *)

Lemma pin_writes_alternate_unless_reasserted_witness :
  let evs := [Tick (hm 6 0); ManualCommand OFF; ResumeSchedule;
              Tick (hm 7 0); UpdateSchedule (hm 22 0) (hm 6 0) (hm 8 0)] in
  commands_change evs initial_world /\
  gpio_writes (run evs initial_world) = [HIGH; LOW; HIGH; LOW; HIGH] /\
  alternating (gpio_writes (run evs initial_world)) = true /\
  relay_consistent initial_world /\
  alternating (gpio_writes (step (ManualCommand OFF) initial_world)) = false.
Proof.
  assert (Hc : commands_change
                 [Tick (hm 6 0); ManualCommand OFF; ResumeSchedule;
                  Tick (hm 7 0); UpdateSchedule (hm 22 0) (hm 6 0) (hm 8 0)]
                 initial_world)
    by (simpl; repeat split; discriminate).
  assert (H0 : relay_consistent initial_world).
  { unfold relay_consistent, pin_level; simpl.
    repeat split; intros; congruence. }
  split; [exact Hc |]. split; [reflexivity |]. split.
  - apply (proj1 pin_writes_alternate_unless_reasserted _ Hc).
  - split; [exact H0 |].
    apply (proj2 pin_writes_alternate_unless_reasserted initial_world OFF H0).
    reflexivity.
Defined.

Lemma schedule_bounds_inclusive_exclusive_witness :
  is_on_schedule (hm 17 0) (hm 9 0) (hm 17 0) = false /\
  hm 9 0 <> hm 17 0 /\
  is_on_schedule (hm 9 0) (hm 9 0) (hm 17 0) = true.
Proof.
  assert (Hd : hm 9 0 <> hm 17 0) by discriminate.
  assert (Hs : valid_time (hm 9 0)) by (apply valid_hm; lia).
  assert (He : valid_time (hm 17 0)) by (apply valid_hm; lia).
  destruct (schedule_bounds_inclusive_exclusive (hm 9 0) (hm 17 0) Hs He)
    as [Hend Hstart].
  split; [exact Hend |]. split; [exact Hd | exact (Hstart Hd)].
Defined.

Lemma swapped_window_is_complement_witness :
  hm 22 0 <> hm 6 0 /\
  is_on_schedule (hm 12 0) (hm 6 0) (hm 22 0) =
  negb (is_on_schedule (hm 12 0) (hm 22 0) (hm 6 0)).
Proof.
  assert (Hd : hm 22 0 <> hm 6 0) by discriminate.
  split; [exact Hd |].
  apply (swapped_window_is_complement (hm 12 0) (hm 22 0) (hm 6 0));
    [apply valid_hm; lia | apply valid_hm; lia | apply valid_hm; lia | exact Hd].
Defined.

Lemma ticks_follow_last_clock_witness :
  let w' := ticks ([hm 10 0; hm 18 0] ++ [hm 12 0]) office_world in
  manual_override office_world = false /\
  status (relay_state w') = ON /\
  manual_override w' = false /\
  start_time (relay_state w') = hm 9 0 /\
  end_time (relay_state w') = hm 17 0.
Proof.
  split; [reflexivity |].
  apply (ticks_follow_last_clock office_world [hm 10 0; hm 18 0] (hm 12 0)).
  reflexivity.
Defined.

Lemma manual_command_reaches_target_witness :
  relay_consistent initial_world /\
  pin_level (step (ManualCommand ON) initial_world) = Some LOW.
Proof.
  assert (H0 : relay_consistent initial_world).
  { unfold relay_consistent, pin_level; simpl.
    repeat split; intros; congruence. }
  split; [exact H0 |].
  apply (proj2 (manual_command_reaches_target initial_world ON) H0).
Defined.

Lemma override_set_only_by_manual_command_witness :
  manual_override (step (ManualCommand ON) initial_world) = true /\
  (manual_override initial_world = true \/
   exists x, ManualCommand ON = ManualCommand x) /\
  manual_override
    (step ResumeSchedule (step (ManualCommand ON) initial_world)) = false.
Proof.
  split; [reflexivity |]. split.
  - apply (proj1 (override_set_only_by_manual_command
                    (ManualCommand ON) initial_world)).
    reflexivity.
  - apply (proj2 (override_set_only_by_manual_command
                    ResumeSchedule (step (ManualCommand ON) initial_world))).
    left. reflexivity.
Defined.

Lemma events_frame_witness :
  let ev := Tick (hm 6 0) in
  (forall s e now, ev <> UpdateSchedule s e now) /\
  start_time (relay_state (step ev initial_world)) = hm 5 30 /\
  end_time (relay_state (step ev initial_world)) = hm 9 30.
Proof.
  assert (Hne : forall s e now, Tick (hm 6 0) <> UpdateSchedule s e now)
    by (intros s e now; discriminate).
  split; [exact Hne |].
  apply (proj2 (events_frame (Tick (hm 6 0)) initial_world) Hne).
Defined.

(** The sensor raises a bare [RuntimeError] at 10:00 inside the window 09:00
    to 17:00: the relay, due to switch on, is left off. *)
Lemma sensor_crash_skips_relay_control_witness :
  let i := mk_run_input
             (Some (mk_dht (Raises (mk_exn RuntimeError []))
                           (Value (Some 50))))
             (hm 10 0) NoClick (hm 9 0) (hm 17 0) (hm 10 0) in
  fst (script_run Z fmt_int i office_world) = Propagated_IndexError /\
  scheduled_status (hm 10 0) office_world = ON /\
  exec (script_run Z fmt_int i) office_world = office_world.
Proof.
  split; [reflexivity |]. split; [reflexivity |].
  apply (sensor_crash_skips_relay_control Z fmt_int). reflexivity.
Defined.

Lemma absent_sensor_is_harmless_witness :
  let i := mk_run_input (setup_dht_sensor (inr (mk_exn OtherException [])))
             (hm 10 0) NoClick (hm 9 0) (hm 17 0) (hm 10 0) in
  fst (script_run Z fmt_int i office_world) = Returned /\
  sensor_data (exec (script_run Z fmt_int i) office_world) =
    sensor_data office_world /\
  read_sensor_data Z fmt_int (device Z i) office_world =
    (Returned, office_world).
Proof.
  apply (absent_sensor_is_harmless Z fmt_int (mk_exn OtherException [])).
  reflexivity.
Defined.

Lemma failed_read_changes_nothing_witness :
  let dev := Some (mk_dht (Value (Some 24))
                          (Raises (mk_exn RuntimeError
                                     ["Checksum did not validate. Try again."%string]))) in
  read_fails dev /\
  exec (read_sensor_data Z fmt_int dev) initial_world = initial_world /\
  (fst (read_sensor_data Z fmt_int dev initial_world) = Returned <->
   (forall e, met_exception dev = Some e -> printable e)).
Proof.
  assert (Hf : read_fails
                 (Some (mk_dht (Value (Some 24))
                          (Raises (mk_exn RuntimeError
                                     ["Checksum did not validate. Try again."%string])))))
    by exact I.
  split; [exact Hf |].
  apply (failed_read_changes_nothing Z fmt_int _ initial_world Hf).
Defined.

Lemma refresh_syncs_relay_witness :
  let i := mk_run_input
             (Some (mk_dht (Value (Some 24)) (Value (Some 50))))
             (hm 10 0) NoClick (hm 9 0) (hm 17 0) (hm 10 0) in
  let w' := exec (script_run Z fmt_int i) office_world in
  status (relay_state office_world) <> scheduled_status (hm 10 0) office_world /\
  status (relay_state w') = ON /\
  manual_override w' = false /\
  gpio_writes w' = [LOW; HIGH].
Proof.
  assert (Hne : status (relay_state office_world)
                <> scheduled_status (hm 10 0) office_world)
    by (vm_compute; discriminate).
  destruct (refresh_syncs_relay Z fmt_int
              (mk_run_input
                 (Some (mk_dht (Value (Some 24)) (Value (Some 50))))
                 (hm 10 0) NoClick (hm 9 0) (hm 17 0) (hm 10 0))
              office_world eq_refl eq_refl eq_refl)
    as (Hst & Hov & _ & _ & _ & Hw).
  split; [exact Hne |]. split; [exact Hst |]. split; [exact Hov |].
  exact (Hw Hne).
Defined.

Lemma script_run_writes_at_most_twice_witness :
  let i := mk_run_input (@None (dht Z))
             (hm 10 0) NoClick (hm 9 0) (hm 17 0) (hm 10 0) in
  let w' := exec (script_run Z fmt_int i) office_world in
  clicked Z i = NoClick /\ writes_between office_world w' = 1 /\
  writes_between office_world w' <= 1.
Proof.
  split; [reflexivity |]. split; [reflexivity |].
  apply (proj2 (script_run_writes_at_most_twice Z fmt_int
                  (mk_run_input (@None (dht Z))
                     (hm 10 0) NoClick (hm 9 0) (hm 17 0) (hm 10 0))
                  office_world)).
  reflexivity.
Defined.
